(** * biocomp: Parsl configuration, wait loop and application exception

    A shallow embedding of [workflow.py] and [appsexception.py].

    - [PhylipMissingData]: the exception class of [appsexception.py].
    - [Workflow.workflow_config]: the configuration builder; the file system
      it reads and the logging calls it makes are explicit.
    - [Workflow.wait_for_all]: the polling loop; the futures and the clock
      are an interface ([TaskWorld]) the loop only calls into, every call is
      recorded as an event, and the [while] loop runs on fuel.
    - [Clock]: a small implementation of that interface, where a future
      completes at a fixed instant, used to run the loop on examples. *)

From Stdlib Require Import ZArith NArith String List DecimalString Lia.
From stdpp Require Import base list strings gmap.

Open Scope string_scope.

(** ** Programs: state, emitted events, exceptions, fuel *)

Inductive outcome (E A : Type) : Type :=
| Returned (a : A)
| Raised (e : E)
| OutOfFuel.

Arguments Returned {E A} a.
Arguments Raised {E A} e.
Arguments OutOfFuel {E A}.

Record reply (W Ev E A : Type) : Type := Reply {
  value : outcome E A;
  after : W;
  emitted : list Ev
}.

Arguments Reply {W Ev E A} value after emitted.
Arguments value {W Ev E A} r.
Arguments after {W Ev E A} r.
Arguments emitted {W Ev E A} r.

Definition M (W Ev E A : Type) : Type := W -> reply W Ev E A.

Section Program.
Context {W Ev E : Type}.

Definition ret {A} (a : A) : M W Ev E A :=
    fun w => Reply (Returned a) w [].

Definition raise {A} (e : E) : M W Ev E A :=
    fun w => Reply (Raised e) w [].

Definition out_of_fuel {A} : M W Ev E A :=
    fun w => Reply OutOfFuel w [].

Definition emit (ev : Ev) : M W Ev E unit :=
    fun w => Reply (Returned tt) w [ev].

Definition bind {A B} (m : M W Ev E A) (k : A -> M W Ev E B) : M W Ev E B :=
    fun w =>
      match m w with
      | Reply (Returned a) w' evs =>
          match k a w' with
          | Reply b w'' evs' => Reply b w'' (evs ++ evs')
          end
      | Reply (Raised e) w' evs => Reply (Raised e) w' evs
      | Reply OutOfFuel w' evs => Reply OutOfFuel w' evs
      end.
End Program.

Declare Scope prog_scope.
Delimit Scope prog_scope with prog.
Notation "x <- m ;; k" := (bind m (fun x => k))
  (at level 100, m at next level, right associativity) : prog_scope.
Notation "m ;; k" := (bind m (fun _ => k))
  (at level 100, right associativity) : prog_scope.

(** ** appsexception.py *)

Module PhylipMissingData.

Record t : Type := {
    input_dir : string;
    message : string;
    args : list string        (* what [super().__init__] stores *)
  }.

Definition default_message : string :=
    "Unable to find a tar file with the nexus data.".

(** [message = None] is a call that leaves the keyword argument out. *)
Definition __init__ (input_dir : string) (message : option string) : t :=
    let message := default default_message message in
    {| input_dir := input_dir; message := message; args := [message] |}.

(** [f'{self.input_dir} -> {self.message}'] *)
Definition __str__ (self : t) : string :=
    input_dir self +:+ " -> " +:+ message self.

End PhylipMissingData.

(** ** The part of Parsl that workflow.py builds values of *)

Module parsl.

Inductive level : Type := DEBUG | INFO | WARNING | ERROR.

Record SrunLauncher : Type := {
    overrides : string
  }.

(** A keyword argument the call leaves out is [None]. *)
Record SlurmProvider : Type := {
    partition : string;
    scheduler_options : option string;
    parallelism : Z;
    init_blocks : Z;
    max_blocks : Z;
    nodes_per_block : Z;
    cmd_timeout : Z;
    worker_init : string;
    move_files : bool;
    walltime : string;
    launcher : SrunLauncher
  }.

Record HighThroughputExecutor : Type := {
    label : string;
    address : string;
    max_workers : Z;
    cores_per_worker : Z;
    worker_debug : bool;
    interchange_port_range : Z * Z;
    provider : SlurmProvider
  }.

Record MonitoringHub : Type := {
    workflow_name : string;
    hub_address : string;
    hub_port : Z;
    resource_monitoring_enabled : bool;
    monitoring_debug : bool;
    resource_monitoring_interval : Z
  }.

Record Config : Type := {
    executors : list HighThroughputExecutor;
    monitoring : option MonitoringHub;
    strategy : option string
  }.

End parsl.

(** ** workflow.py *)

Module Workflow.

(** *** workflow_config *)

(** The logging calls of [workflow_config], in the order they are made. *)
Inductive effect : Type :=
| set_stream_logger (level : parsl.level)
| set_file_logger (filename : string) (level : parsl.level)
| logging_info (msg : string).

Inductive exn : Type :=
| FileNotFoundError (path : string)
| IndexError.

(** The file system is a map from paths to contents. [workflow_config] reads
    one file of it; the log file that [set_file_logger] opens has another
    name and is left out. The calls into Parsl and into [logging] are taken
    where they return: a run in which [set_file_logger] cannot open its log
    file, or in which the host has no interface to give an address for, is
    not described, so the facts on [workflow_config] are facts on the calls
    that return a configuration. *)
Definition Cfg (A : Type) : Type := M (gmap string string) effect exn A.

(** [with open(path, 'r') as reader: reader.read()] *)
Definition open_read (path : string) : Cfg string :=
  fun fs =>
    match fs !! path with
    | Some contents => Reply (Returned contents) fs []
    | None => Reply (Raised (FileNotFoundError path)) fs []
    end.

(** [l[i]] for a literal index [i >= 0] *)
Definition index {A} (l : list A) (i : nat) : Cfg A :=
  match l !! i with
  | Some x => ret x
  | None => raise IndexError
  end.

(** [int(x)] and [f'{x}'] on a Python [int] *)
Definition int (x : Z) : Z := x.
Definition str (x : Z) : string := NilZero.string_of_int (Z.to_int x).

Definition default_partition : list string :=
  ["sequana_cpu"; "sequana_cpu"; "sequana_cpu"; "sequana_cpu_long"].
Definition default_nodes : list Z := [1; 4; 1; 1]%Z.
Definition default_cores_per_node : list Z := [48; 48; 48; 48]%Z.
Definition default_walltime : list string :=
  ["03:00:00"; "04:00:00"; "06:00:00"; "06:00:00"].
Definition default_interval : Z := 30.
Definition default_monitor : bool := false.

Section Config.

(** [parsl.addresses.address_by_interface], which asks the operating system
    for the address of a network interface. *)
Variable address_by_interface : string -> string.

Open Scope prog_scope.
Open Scope Z_scope.

Definition workflow_config (name : string) (partition : list string)
    (nodes cores_per_node : list Z) (walltime : list string)
    (interval : Z) (monitor : bool) : Cfg parsl.Config :=
  emit (set_stream_logger parsl.ERROR) ;;
  emit (set_file_logger (name +:+ "_script.output") parsl.DEBUG) ;;
  emit (logging_info "Configuring Parsl Workflow Infrastructure") ;;
  env_str <- open_read "parsl.env" ;;
  emit (logging_info ("Task Environment " +:+ env_str)) ;;
  let mon_hub :=
    if monitor then
      Some {| parsl.workflow_name := name;
              parsl.hub_address := address_by_interface "ib0";
              parsl.hub_port := 60001;
              parsl.resource_monitoring_enabled := true;
              parsl.monitoring_debug := false;
              parsl.resource_monitoring_interval := interval |}
    else None in
  max_workers0 <- index cores_per_node 0 ;;
  partition0 <- index partition 0 ;;
  nodes0 <- index nodes 0 ;;
  walltime0 <- index walltime 0 ;;
  cores0 <- index cores_per_node 0 ;;
  let single_thread :=
    {| parsl.label := "single_thread";
       parsl.address := address_by_interface "ib0";
       parsl.max_workers := int max_workers0;
       parsl.cores_per_worker := 1;
       parsl.worker_debug := false;
       parsl.interchange_port_range := (50000, 55000);
       parsl.provider :=
         {| parsl.partition := partition0;
            parsl.scheduler_options := None;
            parsl.parallelism := 1;
            parsl.init_blocks := 1;
            parsl.max_blocks := 1;
            parsl.nodes_per_block := nodes0;
            parsl.cmd_timeout := 120;
            parsl.worker_init := env_str;
            parsl.move_files := false;
            parsl.walltime := walltime0;
            parsl.launcher := {| parsl.overrides := "-c " +:+ str cores0 |} |} |} in
  max_workers1 <- index cores_per_node 1 ;;
  partition1 <- index partition 1 ;;
  nodes1 <- index nodes 1 ;;
  walltime1 <- index walltime 1 ;;
  cores1 <- index cores_per_node 1 ;;
  let raxml :=
    {| parsl.label := "raxml";
       parsl.address := address_by_interface "ib0";
       parsl.max_workers := int max_workers1;
       parsl.cores_per_worker := 6;
       parsl.worker_debug := false;
       parsl.interchange_port_range := (55000, 60000);
       parsl.provider :=
         {| parsl.partition := partition1;
            parsl.scheduler_options := None;
            parsl.parallelism := 1;
            parsl.init_blocks := 1;
            parsl.max_blocks := 1;
            parsl.nodes_per_block := nodes1;
            parsl.cmd_timeout := 120;
            parsl.worker_init := env_str;
            parsl.move_files := false;
            parsl.walltime := walltime1;
            parsl.launcher := {| parsl.overrides := "-c " +:+ str cores1 |} |} |} in
  max_workers2 <- index cores_per_node 2 ;;
  partition2 <- index partition 2 ;;
  nodes2 <- index nodes 2 ;;
  walltime2 <- index walltime 2 ;;
  cores2 <- index cores_per_node 2 ;;
  let snaq :=
    {| parsl.label := "snaq";
       parsl.address := address_by_interface "ib0";
       parsl.max_workers := int max_workers2;
       parsl.cores_per_worker := 6;
       parsl.worker_debug := false;
       parsl.interchange_port_range := (40000, 45000);
       parsl.provider :=
         {| parsl.partition := partition2;
            parsl.scheduler_options := None;
            parsl.parallelism := 1;
            parsl.init_blocks := 1;
            parsl.max_blocks := 1;
            parsl.nodes_per_block := nodes2;
            parsl.cmd_timeout := 120;
            parsl.worker_init := env_str;
            parsl.move_files := false;
            parsl.walltime := walltime2;
            parsl.launcher := {| parsl.overrides := "-c " +:+ str cores2 |} |} |} in
  max_workers3 <- index cores_per_node 3 ;;
  partition3 <- index partition 3 ;;
  nodes3 <- index nodes 3 ;;
  walltime3 <- index walltime 3 ;;
  cores3 <- index cores_per_node 3 ;;
  let snaq_l :=
    {| parsl.label := "snaq_l";
       parsl.address := address_by_interface "ib0";
       parsl.max_workers := int max_workers3;
       parsl.cores_per_worker := 6;
       parsl.worker_debug := false;
       parsl.interchange_port_range := (45000, 50000);
       parsl.provider :=
         {| parsl.partition := partition3;
            parsl.scheduler_options := Some EmptyString;
            parsl.parallelism := 1;
            parsl.init_blocks := 1;
            parsl.max_blocks := 1;
            parsl.nodes_per_block := nodes3;
            parsl.cmd_timeout := 120;
            parsl.worker_init := env_str;
            parsl.move_files := false;
            parsl.walltime := walltime3;
            parsl.launcher := {| parsl.overrides := "-c " +:+ str cores3 |} |} |} in
  ret {| parsl.executors := [single_thread; raxml; snaq; snaq_l];
         parsl.monitoring := mon_hub;
         parsl.strategy := None |}.

End Config.

(** *** wait_for_all *)

(** What [wait_for_all] asks of its surroundings: the two methods of a future
    it calls, and [time.sleep]. [W] is the state of everything outside the
    caller (the tasks in flight, the clock); any call may change it.
    [result r] gives [inl e] when it re-raises the stored exception [e].
    A sleep interval is a number of seconds that [time.sleep] takes, so it is
    not negative. *)
Class TaskWorld (W H V E : Type) : Type := {
  done : H -> W -> bool * W;
  result : H -> W -> (E + V) * W;
  sleep : N -> W -> W
}.

Inductive event (H V E : Type) : Type :=
| CallDone (r : H) (answer : bool)
| CallSleep (sleep_interval : N)
| CallResult (r : H) (answer : E + V).

Arguments CallDone {H V E} r answer.
Arguments CallSleep {H V E} sleep_interval.
Arguments CallResult {H V E} r answer.

Section Wait.

Context {W H V E : Type} {TW : TaskWorld W H V E}.

Open Scope list_scope.
Open Scope prog_scope.

Definition Wait (A : Type) : Type := M W (event H V E) E A.

(** [r.done()] *)
Definition call_done (r : H) : Wait bool :=
  fun w =>
    let (answer, w') := done r w in
    Reply (Returned answer) w' [CallDone r answer].

(** [time.sleep(sleep_interval)] *)
Definition call_sleep (sleep_interval : N) : Wait unit :=
  fun w => Reply (Returned tt) (sleep sleep_interval w) [CallSleep sleep_interval].

(** [r.result()] *)
Definition call_result (r : H) : Wait V :=
  fun w =>
    let (answer, w') := result r w in
    match answer with
    | inl e => Reply (Raised e) w' [CallResult r answer]
    | inr v => Reply (Returned v) w' [CallResult r answer]
    end.

(** The [for] loop inside the [while] loop, entered with [not_done = False];
    its value is [not_done] when the loop is left. *)
Fixpoint for_done (list_of_futures : list H) : Wait bool :=
  match list_of_futures with
  | [] => ret false
  | r :: rest =>
      answer <- call_done r ;;
      if negb answer then ret true (* not_done = True; break *)
      else for_done rest
  end.

(** One run of the body of the [while] loop. *)
Definition cycle (list_of_futures : list H) (sleep_interval : N) : Wait bool :=
  not_done <- for_done list_of_futures ;;
  call_sleep sleep_interval ;;
  ret not_done.

(** [while not_done: ...], on fuel: one unit for each run of the body. *)
Fixpoint while_not_done (fuel : nat) (not_done : bool)
    (list_of_futures : list H) (sleep_interval : N) : Wait unit :=
  if not_done then
    match fuel with
    | O => out_of_fuel
    | S fuel =>
        not_done <- cycle list_of_futures sleep_interval ;;
        while_not_done fuel not_done list_of_futures sleep_interval
    end
  else ret tt.

(** [for r in list_of_futures: r.result()] *)
Fixpoint for_result (list_of_futures : list H) : Wait unit :=
  match list_of_futures with
  | [] => ret tt
  | r :: rest => call_result r ;; for_result rest
  end.

Definition wait_for_all (fuel : nat) (list_of_futures : list H)
    (sleep_interval : N) : Wait unit :=
  while_not_done fuel true list_of_futures sleep_interval ;;
  for_result list_of_futures ;;
  ret tt.

(** The world at the head of the [while] loop after [k] runs of its body. *)
Fixpoint after_cycles (k : nat) (list_of_futures : list H)
    (sleep_interval : N) (w : W) : W :=
  match k with
  | O => w
  | S k =>
      after_cycles k list_of_futures sleep_interval
        (after (cycle list_of_futures sleep_interval w))
  end.

(** [next w w']: one call of the interface takes the world from [w] to [w']. *)
Inductive next : W -> W -> Prop :=
| next_done r w : next w (done r w).2
| next_result r w : next w (result r w).2
| next_sleep s w : next w (sleep s w).

(** A future that has reported completion keeps reporting it. *)
Definition stable : Prop :=
  forall r w w', (done r w).1 = true -> next w w' -> (done r w').1 = true.

(** What one pass over the futures emits when every one of them is done. *)
Definition all_done (list_of_futures : list H) : list (event H V E) :=
  map (fun r => CallDone r true) list_of_futures.

(** The events of one pass of the [for] loop of the [while] body, with the
    [not_done] it ends on: either every future answered true, or the pass
    stopped at the first future that answered false. *)
Inductive pass_events (list_of_futures : list H) :
    bool -> list (event H V E) -> Prop :=
| pass_all_done :
    pass_events list_of_futures false (all_done list_of_futures)
| pass_break checked r unchecked :
    list_of_futures = checked ++ r :: unchecked ->
    pass_events list_of_futures true (all_done checked ++ [CallDone r false]).

(** The events of one run of the [while] body: a pass, then the sleep. *)
Definition cycle_events (list_of_futures : list H) (sleep_interval : N)
    (not_done : bool) (evs : list (event H V E)) : Prop :=
  exists pass,
    pass_events list_of_futures not_done pass /\
    evs = pass ++ [CallSleep sleep_interval].

Definition returned (r : H) (v : V) : event H V E := CallResult r (inr v).

(** The events of the last [for] loop, with how it ends: either every future
    gave a value, or the loop stopped at the first future that raised. *)
Inductive fetch_events (list_of_futures : list H) :
    outcome E unit -> list (event H V E) -> Prop :=
| fetch_all vs :
    length vs = length list_of_futures ->
    fetch_events list_of_futures (Returned tt)
      (zip_with returned list_of_futures vs)
| fetch_raise fetched vs r e unfetched :
    list_of_futures = fetched ++ r :: unfetched ->
    length vs = length fetched ->
    fetch_events list_of_futures (Raised e)
      (zip_with returned fetched vs ++ [CallResult r (inl e)]).

(** The events of a whole call, with how it ends: polling cycles that each
    end on [not_done = True], and, unless the fuel ran out in between, a last
    cycle in which every future answered true and then the last loop. *)
Inductive wait_events (list_of_futures : list H) (sleep_interval : N) :
    outcome E unit -> list (event H V E) -> Prop :=
| wait_polling cycles :
    Forall (cycle_events list_of_futures sleep_interval true) cycles ->
    wait_events list_of_futures sleep_interval OutOfFuel (concat cycles)
| wait_finished cycles out results :
    Forall (cycle_events list_of_futures sleep_interval true) cycles ->
    fetch_events list_of_futures out results ->
    wait_events list_of_futures sleep_interval out
      (concat cycles
         ++ (all_done list_of_futures ++ [CallSleep sleep_interval])
         ++ results).

Definition is_call_result (ev : event H V E) : bool :=
  match ev with
  | CallResult _ _ => true
  | _ => false
  end.



Definition is_raise (ev : event H V E) : bool :=
  match ev with
  | CallResult _ (inl _) => true
  | _ => false
  end.

End Wait.

Definition default_sleep_interval : N := 10.

End Workflow.

(** ** A world to run the loop in *)

(** Time is a counter of seconds. A future completes at a fixed instant
    ([None]: it never does) and stores a value or the name of an exception.
    Checking a future takes no time; sleeping takes the interval asked for;
    asking for a result blocks until the future has completed. *)
Module Clock.

Record future : Type := {
  finish : option N;
  stored : string + Z
}.

Definition is_done (r : future) (now : N) : bool :=
  match finish r with
  | Some t => (t <=? now)%N
  | None => false
  end.

Definition wait_until_done (r : future) (now : N) : N :=
  match finish r with
  | Some t => N.max now t
  | None => now
  end.

#[global] Instance world : Workflow.TaskWorld N future Z string := {|
  Workflow.done r now := (is_done r now, now);
  Workflow.result r now := (stored r, wait_until_done r now);
  Workflow.sleep s now := (now + s)%N
|}.

Definition ok (t : N) (v : Z) : future :=
  {| finish := Some t; stored := inr v |}.
Definition failing (t : N) (e : string) : future :=
  {| finish := Some t; stored := inl e |}.
Definition stuck : future :=
  {| finish := None; stored := inr 0%Z |}.

End Clock.

(** ** Inputs to run the definitions on *)

Module Example.

Definition env_str : string := "module load parsl; export OMP_NUM_THREADS=1".

Definition fs : gmap string string := {[ "parsl.env" := env_str ]}.

Definition address_by_interface (ifname : string) : string := "10.0.0.1".

End Example.

(** ** Counting calls *)


(** * Properties *)

(** ** appsexception.py *)

(** C7: the text of a [PhylipMissingData] is its input directory, then the
    literal [" -> "], then its message; in particular for an exception built
    from an input directory and a message. *)
Theorem PhylipMissingData_str_is_dir_arrow_message :
  (forall self : PhylipMissingData.t,
     PhylipMissingData.__str__ self =
     PhylipMissingData.input_dir self +:+ " -> " +:+ PhylipMissingData.message self) /\
  (forall input_dir message : string,
     PhylipMissingData.__str__ (PhylipMissingData.__init__ input_dir (Some message)) =
     input_dir +:+ " -> " +:+ message).
Proof.
  split.
  - intros self. reflexivity.
  - intros input_dir message. reflexivity.
Qed.

(** C10: built from an input directory alone, a [PhylipMissingData] has the
    message "Unable to find a tar file with the nexus data." and the given
    directory as its [input_dir]. *)
Theorem PhylipMissingData_init_default_message (input_dir : string) :
  PhylipMissingData.message (PhylipMissingData.__init__ input_dir None) =
    "Unable to find a tar file with the nexus data." /\
  PhylipMissingData.input_dir (PhylipMissingData.__init__ input_dir None) = input_dir.
Proof. split; reflexivity. Qed.

(** ** workflow_config *)

Section ConfigFacts.

Import Workflow.

Variable address_by_interface : string -> string.

(** Runs [workflow_config] up to its result. *)
Ltac run_config_in H :=
  unfold workflow_config, bind, emit, open_read, index, ret, raise in H.

(** Case analysis on every list access a stuck run is waiting for. *)
Ltac split_lookups H :=
  repeat
    (match type of H with
     | context [match ?l !! ?i with _ => _ end] => destruct (l !! i) eqn:?
     end;
     cbn in H; try discriminate H).

(** What a run that returns a configuration has done: it has read
    'parsl.env', it has found the first four elements of each list, and the
    configuration holds exactly these. *)
Lemma workflow_config_returned name (partition : list string)
    (nodes cores_per_node : list Z) (walltime : list string) interval monitor
    (fs : gmap string string) cfg :
  value (workflow_config address_by_interface name partition nodes
           cores_per_node walltime interval monitor fs) = Returned cfg ->
  exists env_str,
    fs !! "parsl.env" = Some env_str /\
    Forall (fun ex => parsl.worker_init (parsl.provider ex) = env_str)
           (parsl.executors cfg) /\
    map (fun ex => Some (parsl.partition (parsl.provider ex))) (parsl.executors cfg) =
      map (fun i => partition !! i) [0; 1; 2; 3]%nat /\
    map (fun ex => Some (parsl.nodes_per_block (parsl.provider ex))) (parsl.executors cfg) =
      map (fun i => nodes !! i) [0; 1; 2; 3]%nat /\
    map (fun ex => Some (parsl.max_workers ex)) (parsl.executors cfg) =
      map (fun i => cores_per_node !! i) [0; 1; 2; 3]%nat /\
    map (fun ex => Some (parsl.walltime (parsl.provider ex))) (parsl.executors cfg) =
      map (fun i => walltime !! i) [0; 1; 2; 3]%nat /\
    parsl.monitoring cfg =
      (if monitor then
         Some {| parsl.workflow_name := name;
                 parsl.hub_address := address_by_interface "ib0";
                 parsl.hub_port := 60001;
                 parsl.resource_monitoring_enabled := true;
                 parsl.monitoring_debug := false;
                 parsl.resource_monitoring_interval := interval |}
       else None).
Proof.
  intros Hret. run_config_in Hret.
  destruct (fs !! "parsl.env") as [env_str|] eqn:Hfs; [|discriminate Hret].
  exists env_str. split; [reflexivity|].
  split_lookups Hret.
  injection Hret as <-. cbn.
  repeat split; try reflexivity.
  - repeat constructor.
  - congruence.
  - congruence.
  - unfold int. congruence.
  - congruence.
Qed.


(** C4: the configuration [workflow_config] returns has a monitoring hub
    exactly when [monitor] is true, and the hub's resource monitoring interval
    is the [interval] argument. *)
Theorem workflow_config_monitoring name (partition : list string)
    (nodes cores_per_node : list Z) (walltime : list string) interval monitor
    (fs : gmap string string) cfg :
  value (workflow_config address_by_interface name partition nodes
           cores_per_node walltime interval monitor fs) = Returned cfg ->
  (is_Some (parsl.monitoring cfg) <-> monitor = true) /\
  (forall hub, parsl.monitoring cfg = Some hub ->
     parsl.resource_monitoring_interval hub = interval).
Proof.
  intros Hret.
  destruct (workflow_config_returned _ _ _ _ _ _ _ _ _ Hret)
    as (env_str & _ & _ & _ & _ & _ & _ & Hmon).
  rewrite Hmon. destruct monitor; split.
  - split; [reflexivity | eauto].
  - intros hub [= <-]. reflexivity.
  - split; [intros [hub Hhub]; discriminate Hhub | discriminate].
  - intros hub Hhub. discriminate Hhub.
Qed.



(** *** Further facts on workflow_config *)

(** A run that returns a configuration, taken apart: the file and the list
    elements it has read, and the configuration itself. *)
Ltac invert_config H :=
  run_config_in H;
  destruct (_ !! "parsl.env") as [?env_str|] eqn:?Hfs in H; [|discriminate H];
  split_lookups H;
  injection H as <-.

Lemma lookup_3_length {A} (l : list A) :
  is_Some (l !! 3%nat) <-> (4 <= length l)%nat.
Proof. rewrite lookup_lt_is_Some. lia. Qed.

(** X1: [workflow_config] returns a configuration only if 'parsl.env' is
    there to be read and each of the four lists has four elements at least:
    without the file, or on a shorter list, no configuration comes back. *)
Theorem workflow_config_returns_only_if name (partition : list string)
    (nodes cores_per_node : list Z) (walltime : list string) interval monitor
    (fs : gmap string string) cfg :
  value (workflow_config address_by_interface name partition nodes
           cores_per_node walltime interval monitor fs) = Returned cfg ->
  is_Some (fs !! "parsl.env") /\
  (4 <= length partition)%nat /\ (4 <= length nodes)%nat /\
  (4 <= length cores_per_node)%nat /\ (4 <= length walltime)%nat.
Proof.
  intros Hret.
  destruct (workflow_config_returned _ _ _ _ _ _ _ _ _ Hret)
    as (env_str & Hfs & _ & Hp & Hn & Hc & Hw & _).
  split; [eauto|].
  rewrite <- !lookup_3_length.
  destruct (parsl.executors cfg) as [|? [|? [|? [|ex3 ?]]]]; try discriminate Hp.
  injection Hp as _ _ _ <-. injection Hn as _ _ _ <-.
  injection Hc as _ _ _ <-. injection Hw as _ _ _ <-. eauto.
Qed.

(** X3: a call that returns a configuration has made four logging calls, in
    this order: the stream logger at [ERROR], the file logger on
    [<name>_script.output] at [DEBUG], the message that the configuration
    starts, and the message that shows the contents of 'parsl.env'. *)
Theorem workflow_config_logging_calls name (partition : list string)
    (nodes cores_per_node : list Z) (walltime : list string) interval monitor
    (fs : gmap string string) cfg :
  value (workflow_config address_by_interface name partition nodes
           cores_per_node walltime interval monitor fs) = Returned cfg ->
  exists env_str,
    fs !! "parsl.env" = Some env_str /\
    emitted (workflow_config address_by_interface name partition nodes
               cores_per_node walltime interval monitor fs) =
    [set_stream_logger parsl.ERROR;
     set_file_logger (name +:+ "_script.output") parsl.DEBUG;
     logging_info "Configuring Parsl Workflow Infrastructure";
     logging_info ("Task Environment " +:+ env_str)].
Proof.
  intros Hret. run_config_in Hret.
  unfold workflow_config, bind, emit, open_read, index, ret, raise.
  destruct (fs !! "parsl.env") as [env_str|]; [|discriminate Hret].
  exists env_str. split; [reflexivity|].
  repeat
    (match type of Hret with
     | context [match ?l !! ?i with _ => _ end] => destruct (l !! i)
     end;
     cbn in Hret |- *; try discriminate Hret).
  reflexivity.
Qed.

(** X4: only the first four elements of each list are read: a call on longer
    lists is the call on their first four elements. *)
Theorem workflow_config_first_four name (partition : list string)
    (nodes cores_per_node : list Z) (walltime : list string) interval monitor
    (fs : gmap string string) :
  workflow_config address_by_interface name partition nodes cores_per_node
    walltime interval monitor fs =
  workflow_config address_by_interface name (take 4 partition) (take 4 nodes)
    (take 4 cores_per_node) (take 4 walltime) interval monitor fs.
Proof.
  unfold workflow_config, index.
  rewrite !lookup_take_lt by lia. reflexivity.
Qed.

(** X5: in a configuration that is returned, each executor starts its workers
    with [srun -c n] for the very [n] that is its [max_workers]. *)
Theorem workflow_config_launcher_cores name (partition : list string)
    (nodes cores_per_node : list Z) (walltime : list string) interval monitor
    (fs : gmap string string) cfg :
  value (workflow_config address_by_interface name partition nodes
           cores_per_node walltime interval monitor fs) = Returned cfg ->
  forall ex, ex ∈ parsl.executors cfg ->
    parsl.overrides (parsl.launcher (parsl.provider ex)) =
    "-c " +:+ str (parsl.max_workers ex).
Proof.
  intros Hret. invert_config Hret. cbn.
  intros ex Hex. repeat (apply elem_of_cons in Hex as [->|Hex]; [reflexivity|]).
  inversion Hex.
Qed.

(** X6: a configuration that is returned has the executors [single_thread],
    [raxml], [snaq] and [snaq_l], in this order, so no two of them share a
    label. *)
Theorem workflow_config_labels name (partition : list string)
    (nodes cores_per_node : list Z) (walltime : list string) interval monitor
    (fs : gmap string string) cfg :
  value (workflow_config address_by_interface name partition nodes
           cores_per_node walltime interval monitor fs) = Returned cfg ->
  map parsl.label (parsl.executors cfg) =
    ["single_thread"; "raxml"; "snaq"; "snaq_l"] /\
  NoDup (map parsl.label (parsl.executors cfg)).
Proof.
  intros Hret. invert_config Hret. cbn. split; [reflexivity|].
  apply (bool_decide_unpack _). reflexivity.
Qed.

(** X7: a configuration that is returned does not scale: it has no strategy,
    and each executor has one block from the start and never more than one. *)
Theorem workflow_config_one_block name (partition : list string)
    (nodes cores_per_node : list Z) (walltime : list string) interval monitor
    (fs : gmap string string) cfg :
  value (workflow_config address_by_interface name partition nodes
           cores_per_node walltime interval monitor fs) = Returned cfg ->
  parsl.strategy cfg = None /\
  forall ex, ex ∈ parsl.executors cfg ->
    parsl.init_blocks (parsl.provider ex) = 1%Z /\
    parsl.max_blocks (parsl.provider ex) = 1%Z /\
    parsl.parallelism (parsl.provider ex) = 1%Z.
Proof.
  intros Hret. invert_config Hret. cbn. split; [reflexivity|].
  intros ex Hex.
  repeat (apply elem_of_cons in Hex as [->|Hex]; [repeat split|]).
  inversion Hex.
Qed.

(** X8: the executors depend on the lists and on 'parsl.env' only: two
    calls that return, on the same lists and files, have the same executors
    whatever their names, intervals and monitor flags. *)
Theorem workflow_config_executors_independent name name' (partition : list string)
    (nodes cores_per_node : list Z) (walltime : list string)
    interval interval' monitor monitor' (fs : gmap string string) cfg cfg' :
  value (workflow_config address_by_interface name partition nodes
           cores_per_node walltime interval monitor fs) = Returned cfg ->
  value (workflow_config address_by_interface name' partition nodes
           cores_per_node walltime interval' monitor' fs) = Returned cfg' ->
  parsl.executors cfg' = parsl.executors cfg.
Proof.
  intros Hret. run_config_in Hret.
  unfold workflow_config, bind, emit, open_read, index, ret, raise.
  destruct (fs !! "parsl.env") as [env_str|]; [|discriminate Hret].
  repeat
    (match type of Hret with
     | context [match ?l !! ?i with _ => _ end] => destruct (l !! i)
     end;
     cbn in Hret |- *; try discriminate Hret).
  injection Hret as <-. intros [= <-]. reflexivity.
Qed.

(** X9: with [monitor] on, a configuration that is returned has a hub named
    after the workflow, at the address of interface [ib0] like every
    executor, on port 60001, above the interchange ports of every executor. *)
Theorem workflow_config_hub name (partition : list string)
    (nodes cores_per_node : list Z) (walltime : list string) interval
    (fs : gmap string string) cfg :
  value (workflow_config address_by_interface name partition nodes
           cores_per_node walltime interval true fs) = Returned cfg ->
  exists hub,
    parsl.monitoring cfg = Some hub /\
    parsl.workflow_name hub = name /\
    parsl.hub_address hub = address_by_interface "ib0" /\
    parsl.hub_port hub = 60001%Z /\
    forall ex, ex ∈ parsl.executors cfg ->
      parsl.address ex = parsl.hub_address hub /\
      ((parsl.interchange_port_range ex).1 < (parsl.interchange_port_range ex).2
       < parsl.hub_port hub)%Z.
Proof.
  intros Hret. invert_config Hret. cbn. eexists. split; [reflexivity|]. cbn.
  split; [reflexivity|]. split; [reflexivity|]. split; [reflexivity|].
  intros ex Hex.
  repeat (apply elem_of_cons in Hex as [->|Hex]; [cbn; split; [reflexivity|lia]|]).
  inversion Hex.
Qed.

End ConfigFacts.

(** ** wait_for_all *)

Section WaitFacts.

Import Workflow.

Context {W H V E : Type} {TW : TaskWorld W H V E}.

Open Scope list_scope.

Implicit Types (l : list H) (s : N) (w : W) (r : H).

(** *** The passes over the futures *)

Lemma for_done_nil w : for_done [] w = Reply (Returned false) w [].
Proof. reflexivity. Qed.

Lemma for_done_cons r l w :
  for_done (r :: l) w =
  if (done r w).1 then
    match for_done l (done r w).2 with
    | Reply b w' evs => Reply b w' (CallDone r true :: evs)
    end
  else Reply (Returned true) (done r w).2 [CallDone r false].
Proof.
  cbn. unfold bind, call_done. destruct (done r w) as [[] w1]; cbn; [|reflexivity].
  destruct (for_done l w1) as [[nd|e|] w2 evs]; reflexivity.
Qed.

(** A pass always ends, with a value for [not_done] and events of the shape
    [pass_events]. *)
Lemma for_done_events l w :
  exists not_done,
    value (for_done l w) = Returned not_done /\
    pass_events l not_done (emitted (for_done l w)).
Proof.
  revert w. induction l as [|r l IH]; intros w.
  - exists false. split; [reflexivity|]. apply (pass_all_done []).
  - rewrite for_done_cons. destruct (done r w) as [[] w1]; cbn.
    + destruct (IH w1) as (nd & Hv & Hp).
      destruct (for_done l w1) as [b w2 evs]. cbn in *. subst b.
      exists nd. split; [reflexivity|].
      inversion Hp as [Hnd Hevs | checked r0 unchecked Hl Hnd Hevs]; subst.
      * apply (pass_all_done (r :: l)).
      * apply (pass_break (r :: checked ++ r0 :: unchecked) (r :: checked) r0 unchecked).
        reflexivity.
    + exists true. split; [reflexivity|].
      apply (pass_break (r :: l) [] r l). reflexivity.
Qed.

(** *** One cycle, the while loop, the last loop *)

Lemma cycle_eq l s w :
  cycle l s w =
  Reply (value (for_done l w)) (sleep s (after (for_done l w)))
        (emitted (for_done l w) ++ [CallSleep s]).
Proof.
  unfold cycle, bind, call_sleep, ret.
  destruct (for_done_events l w) as (nd & Hv & _).
  destruct (for_done l w) as [b w1 evs]. cbn in *. subst b.
  reflexivity.
Qed.

Lemma cycle_has_events l s w :
  exists not_done,
    value (cycle l s w) = Returned not_done /\
    cycle_events l s not_done (emitted (cycle l s w)).
Proof.
  rewrite cycle_eq. cbn.
  destruct (for_done_events l w) as (nd & Hv & Hp).
  exists nd. split; [exact Hv|]. exists (emitted (for_done l w)). now split.
Qed.

Lemma while_not_done_false fuel l s w :
  while_not_done fuel false l s w = Reply (Returned tt) w [].
Proof. destruct fuel; reflexivity. Qed.

Lemma while_not_done_O l s w :
  while_not_done 0 true l s w = Reply OutOfFuel w [].
Proof. reflexivity. Qed.

Lemma while_not_done_S fuel l s w :
  while_not_done (S fuel) true l s w =
  match value (for_done l w) with
  | Returned not_done =>
      match while_not_done fuel not_done l s (after (cycle l s w)) with
      | Reply b w' evs => Reply b w' (emitted (cycle l s w) ++ evs)
      end
  | Raised e => Reply (Raised e) (after (cycle l s w)) (emitted (cycle l s w))
  | OutOfFuel => Reply OutOfFuel (after (cycle l s w)) (emitted (cycle l s w))
  end.
Proof.
  cbn [while_not_done]. unfold bind at 1. rewrite cycle_eq. cbn.
  destruct (value (for_done l w)); reflexivity.
Qed.

Lemma after_cycles_S k l s w :
  after_cycles (S k) l s w = after (cycle l s (after_cycles k l s w)).
Proof.
  revert w. induction k as [|k IH]; intros w; [reflexivity|].
  change (after_cycles (S (S k)) l s w)
    with (after_cycles (S k) l s (after (cycle l s w))).
  rewrite IH. reflexivity.
Qed.

(** The while loop either is still running when the fuel is gone, every pass
    so far having ended on [not_done = True], or it has left after the first
    pass that ended on [not_done = False]. *)
Lemma while_not_done_run fuel l s w :
  let run := while_not_done fuel true l s w in
  (value run = OutOfFuel /\
   after run = after_cycles fuel l s w /\
   (forall j, (j < fuel)%nat ->
      value (for_done l (after_cycles j l s w)) = Returned true) /\
   exists cycles,
     length cycles = fuel /\
     Forall (cycle_events l s true) cycles /\
     emitted run = concat cycles) \/
  (exists k,
     (k < fuel)%nat /\
     value run = Returned tt /\
     after run = after_cycles (S k) l s w /\
     value (for_done l (after_cycles k l s w)) = Returned false /\
     (forall j, (j < k)%nat ->
        value (for_done l (after_cycles j l s w)) = Returned true) /\
     exists cycles,
       length cycles = k /\
       Forall (cycle_events l s true) cycles /\
       emitted run = concat cycles ++ all_done l ++ [CallSleep s]).
Proof.
  revert w. induction fuel as [|fuel IH]; intros w run; subst run.
  - left. rewrite while_not_done_O. cbn.
    repeat split; [lia|]. exists []. repeat split. constructor.
  - rewrite while_not_done_S.
    destruct (cycle_has_events l s w) as (nd & Hv & Hc).
    assert (Hv' : value (for_done l w) = Returned nd)
      by (rewrite cycle_eq in Hv; exact Hv).
    rewrite Hv'. destruct nd.
    + specialize (IH (after (cycle l s w))). cbn zeta in IH.
      destruct (while_not_done fuel true l s (after (cycle l s w)))
        as [b w' evs]. cbn in IH |- *.
      destruct IH as [(Hb & Hw & Hj & cs & Hlen & Hcs & Hevs)
                     |(k & Hk & Hb & Hw & Hlast & Hj & cs & Hlen & Hcs & Hevs)].
      * left. repeat split; [exact Hb|exact Hw| |].
        -- intros [|j] Hlt; [exact Hv'|]. apply Hj. lia.
        -- exists (emitted (cycle l s w) :: cs). cbn.
           repeat split; [lia|constructor; assumption|congruence].
      * right. exists (S k). repeat split; [lia|exact Hb|exact Hw|exact Hlast| |].
        -- intros [|j] Hlt; [exact Hv'|]. apply Hj. lia.
        -- exists (emitted (cycle l s w) :: cs). cbn.
           repeat split; [lia|constructor; assumption|].
           rewrite Hevs, <- app_assoc. reflexivity.
    + right. exists 0%nat. rewrite while_not_done_false. cbn.
      repeat split; [lia|exact Hv'|lia|].
      exists []. repeat split; [constructor|].
      destruct Hc as (pass & Hp & ->). rewrite app_nil_r.
      inversion Hp. reflexivity.
Qed.

Lemma for_result_cons r l w :
  for_result (r :: l) w =
  match (result r w).1 with
  | inl e => Reply (Raised e) (result r w).2 [CallResult r (inl e)]
  | inr v =>
      match for_result l (result r w).2 with
      | Reply b w' evs => Reply b w' (returned r v :: evs)
      end
  end.
Proof.
  cbn. unfold bind, call_result. destruct (result r w) as [[e|v] w1]; cbn;
    [reflexivity|].
  destruct (for_result l w1) as [[a|e|] w2 evs]; reflexivity.
Qed.

(** The last loop always ends, on a return or on a raise, with events of the
    shape [fetch_events]. *)
Lemma for_result_events l w :
  value (for_result l w) <> OutOfFuel /\
  fetch_events l (value (for_result l w)) (emitted (for_result l w)).
Proof.
  revert w. induction l as [|r l IH]; intros w.
  - split; [discriminate|]. apply (fetch_all [] []). reflexivity.
  - rewrite for_result_cons. destruct (result r w) as [[e|v] w1]; cbn.
    + split; [discriminate|]. apply (fetch_raise (r :: l) [] [] r e l); reflexivity.
    + destruct (IH w1) as (Hfuel & Hf).
      destruct (for_result l w1) as [b w2 evs]. cbn in *.
      split; [exact Hfuel|].
      inversion Hf as [vs Hlen Hb Hevs | fetched vs r0 e unfetched Hl Hlen Hb Hevs];
        subst.
      * apply (fetch_all (r :: l) (v :: vs)). cbn. now f_equal.
      * apply (fetch_raise (r :: fetched ++ r0 :: unfetched) (r :: fetched)
                 (v :: vs) r0 e unfetched); [reflexivity|]. cbn. now f_equal.
Qed.

Lemma wait_for_all_eq fuel l s w :
  wait_for_all fuel l s w =
  match while_not_done fuel true l s w with
  | Reply (Returned _) w' evs =>
      match for_result l w' with
      | Reply b w'' evs' => Reply b w'' (evs ++ evs')
      end
  | Reply (Raised e) w' evs => Reply (Raised e) w' evs
  | Reply OutOfFuel w' evs => Reply OutOfFuel w' evs
  end.
Proof.
  unfold wait_for_all, bind, ret.
  destruct (while_not_done fuel true l s w) as [[[]|e|] w1 evs]; try reflexivity.
  destruct (for_result l w1) as [[[]|e|] w2 evs']; rewrite ?app_nil_r; reflexivity.
Qed.

(** A call either is still polling when the fuel is gone, or has left the
    while loop after the first pass that ended on [not_done = False] and has
    gone through the last loop from there. *)
Lemma wait_for_all_run fuel l s w :
  let run := wait_for_all fuel l s w in
  (value run = OutOfFuel /\
   after run = after_cycles fuel l s w /\
   (forall j, (j < fuel)%nat ->
      value (for_done l (after_cycles j l s w)) = Returned true) /\
   exists cycles,
     length cycles = fuel /\
     Forall (cycle_events l s true) cycles /\
     emitted run = concat cycles) \/
  (exists k,
     (k < fuel)%nat /\
     value (for_done l (after_cycles k l s w)) = Returned false /\
     (forall j, (j < k)%nat ->
        value (for_done l (after_cycles j l s w)) = Returned true) /\
     let fetch := for_result l (after_cycles (S k) l s w) in
     value run = value fetch /\
     after run = after fetch /\
     exists cycles,
       length cycles = k /\
       Forall (cycle_events l s true) cycles /\
       emitted run =
         concat cycles ++ (all_done l ++ [CallSleep s]) ++ emitted fetch).
Proof.
  intros run. subst run. rewrite wait_for_all_eq.
  destruct (while_not_done_run fuel l s w)
    as [(Hb & Hw & Hj & cs & Hlen & Hcs & Hevs)
       |(k & Hk & Hb & Hw & Hlast & Hj & cs & Hlen & Hcs & Hevs)];
    destruct (while_not_done fuel true l s w) as [b w1 evs]; cbn in *; subst b.
  - left. repeat split; [exact Hw|exact Hj|]. exists cs. now repeat split.
  - right. exists k. rewrite <- Hw. repeat split; [exact Hk|exact Hlast|exact Hj| | |].
    + now destruct (for_result l w1).
    + now destruct (for_result l w1).
    + exists cs. repeat split; [exact Hlen|exact Hcs|].
      destruct (for_result l w1) as [b w2 evs']. cbn. rewrite Hevs.
      now rewrite <- !app_assoc.
Qed.

Lemma wait_for_all_events fuel l s w :
  wait_events l s (value (wait_for_all fuel l s w))
    (emitted (wait_for_all fuel l s w)).
Proof.
  destruct (wait_for_all_run fuel l s w)
    as [(Hb & _ & _ & cs & _ & Hcs & Hevs)
       |(k & _ & _ & _ & Hb & _ & cs & _ & Hcs & Hevs)].
  - rewrite Hb, Hevs. now constructor.
  - rewrite Hb, Hevs. constructor; [exact Hcs|]. apply for_result_events.
Qed.

(** *** The world along a call *)

Lemma for_done_reach l w : rtc next w (after (for_done l w)).
Proof.
  revert w. induction l as [|r l IH]; intros w; [apply rtc_refl|].
  rewrite for_done_cons. destruct (done r w).1 eqn:Hd.
  - specialize (IH (done r w).2).
    destruct (for_done l (done r w).2) as [b w' evs]. cbn in *.
    eapply rtc_l; [apply (next_done r w)|exact IH].
  - cbn. apply rtc_once, next_done.
Qed.

Lemma cycle_reach l s w : rtc next w (after (cycle l s w)).
Proof.
  rewrite cycle_eq. cbn.
  eapply rtc_r; [apply for_done_reach|apply next_sleep].
Qed.

Lemma after_cycles_reach j k l s w :
  (j <= k)%nat -> rtc next (after_cycles j l s w) (after_cycles k l s w).
Proof.
  induction 1 as [|k Hle IH]; [apply rtc_refl|].
  rewrite (after_cycles_S k). etrans; [exact IH|apply cycle_reach].
Qed.

Lemma for_result_reach l w : rtc next w (after (for_result l w)).
Proof.
  revert w. induction l as [|r l IH]; intros w; [apply rtc_refl|].
  rewrite for_result_cons. destruct (result r w).1 eqn:Hr.
  - cbn. apply rtc_once, next_result.
  - specialize (IH (result r w).2).
    destruct (for_result l (result r w).2) as [b w' evs]. cbn in *.
    eapply rtc_l; [apply (next_result r w)|exact IH].
Qed.

Lemma stable_rtc r w w' :
  stable -> (done r w).1 = true -> rtc next w w' -> (done r w').1 = true.
Proof.
  intros Hst Hd Hreach. induction Hreach as [|w w1 w2 Hn _ IH]; [exact Hd|].
  apply IH. eapply Hst; eassumption.
Qed.

(** A pass that ends on [not_done = False] has seen every future done, and
    among stable futures they all are still done when it ends. *)
Lemma for_done_false_stable l w :
  stable -> value (for_done l w) = Returned false ->
  forall r, r ∈ l -> (done r (after (for_done l w))).1 = true.
Proof.
  intros Hst. revert w. induction l as [|x l IH]; intros w Hv r Hin.
  - inversion Hin.
  - pose proof (for_done_reach (x :: l) w) as Hreach.
    rewrite for_done_cons in Hv, Hreach |- *.
    destruct (done x w).1 eqn:Hd; [|discriminate Hv].
    apply elem_of_cons in Hin as [->|Hin].
    + eapply stable_rtc; [exact Hst|exact Hd|exact Hreach].
    + specialize (IH (done x w).2).
      destruct (for_done l (done x w).2) as [b w' evs]. cbn in *.
      apply IH; assumption.
Qed.

(** Among stable futures that are all done, a pass ends on
    [not_done = False]. *)
Lemma for_done_all_done_stable l w :
  stable -> (forall r, r ∈ l -> (done r w).1 = true) ->
  value (for_done l w) = Returned false.
Proof.
  intros Hst. revert w. induction l as [|x l IH]; intros w Hall; [reflexivity|].
  rewrite for_done_cons. rewrite (Hall x) by apply list_elem_of_here.
  specialize (IH (done x w).2).
  destruct (for_done l (done x w).2) as [b w' evs]. cbn in *.
  apply IH. intros r Hin. eapply Hst; [|apply next_done].
  apply Hall. now apply list_elem_of_further.
Qed.

(** With a future that never reports completion, every pass ends on
    [not_done = True]. *)
Lemma for_done_never l w r :
  r ∈ l -> (forall w', (done r w').1 = false) ->
  value (for_done l w) = Returned true.
Proof.
  intros Hin Hnever. revert w. induction l as [|x l IH]; intros w.
  - inversion Hin.
  - rewrite for_done_cons. destruct (done x w).1 eqn:Hd; [|reflexivity].
    apply elem_of_cons in Hin as [->|Hin]; [rewrite Hnever in Hd; discriminate Hd|].
    specialize (IH Hin (done x w).2).
    destruct (for_done l (done x w).2) as [b w' evs]. exact IH.
Qed.

(** Stable futures that each are done at the head of some cycle are all
    done at the head of one cycle. *)
Lemma eventually_all_done l s w :
  stable ->
  (forall r, r ∈ l -> exists k, (done r (after_cycles k l s w)).1 = true) ->
  exists k, forall r, r ∈ l -> (done r (after_cycles k l s w)).1 = true.
Proof.
  intros Hst.
  assert (Hgen : forall l',
    (forall r, r ∈ l' -> exists k, (done r (after_cycles k l s w)).1 = true) ->
    exists k, forall r, r ∈ l' -> (done r (after_cycles k l s w)).1 = true).
  { induction l' as [|x l' IH]; intros Hev.
    - exists 0%nat. intros r Hin. inversion Hin.
    - destruct (Hev x (list_elem_of_here _ _)) as [kx Hx].
      destruct IH as [k Hk].
      { intros r Hin. apply Hev. now apply list_elem_of_further. }
      exists (kx `max` k)%nat. intros r [->|Hin]%elem_of_cons.
      + eapply stable_rtc; [exact Hst|exact Hx|]. apply after_cycles_reach. lia.
      + eapply stable_rtc; [exact Hst|exact (Hk r Hin)|].
        apply after_cycles_reach. lia. }
  apply Hgen.
Qed.

Lemma zip_with_returned_results l (vs : list V) :
  Forall (fun ev => is_call_result ev = true) (zip_with (@returned H V E) l vs).
Proof.
  revert vs. induction l as [|r l IH]; intros [|v vs]; cbn; constructor;
    [reflexivity|apply IH].
Qed.

Lemma fetch_events_results l out (results : list (event H V E)) :
  fetch_events l out results ->
  Forall (fun ev => is_call_result ev = true) results.
Proof.
  intros [vs _|fetched vs r e unfetched _ _].
  - apply zip_with_returned_results.
  - apply Forall_app. split; [apply zip_with_returned_results|].
    repeat constructor.
Qed.

Lemma pass_events_no_result l not_done (pass : list (event H V E)) :
  pass_events l not_done pass ->
  Forall (fun ev => is_call_result ev = false) pass.
Proof.
  intros [|checked r unchecked _]; unfold all_done.
  - apply Forall_fmap, Forall_true. reflexivity.
  - apply Forall_app. split; [apply Forall_fmap, Forall_true; reflexivity|].
    repeat constructor.
Qed.

Lemma cycles_no_result l s (cycles : list (list (event H V E))) :
  Forall (cycle_events l s true) cycles ->
  Forall (fun ev => is_call_result ev = false) (concat cycles).
Proof.
  induction 1 as [|c cycles (pass & Hp & ->) _ IH]; cbn; [constructor|].
  apply Forall_app. split; [|exact IH].
  apply Forall_app. split; [eapply pass_events_no_result, Hp|repeat constructor].
Qed.

(** *** The claims on wait_for_all *)

(** C1: a call that ends, on a return or on a raise, has made a last pass in
    which the [done] of every future of the list answered true, followed only
    by the sleep and the [result] calls; and among futures that stay done once
    they are done, every future of the list is done when the call ends. *)
Theorem wait_for_all_ends_after_all_done fuel l s w :
  value (wait_for_all fuel l s w) <> OutOfFuel ->
  (exists before results,
     emitted (wait_for_all fuel l s w) =
       before ++ all_done l ++ CallSleep s :: results /\
     Forall (fun ev => is_call_result ev = true) results) /\
  (stable ->
   forall r, r ∈ l -> (done r (after (wait_for_all fuel l s w))).1 = true).
Proof.
  intros Hends.
  destruct (wait_for_all_run fuel l s w)
    as [(Hb & _)|(k & _ & Hlast & _ & Hb & Hw & cs & _ & Hcs & Hevs)];
    [contradiction|].
  cbn zeta in Hb, Hw, Hevs. split.
  - exists (concat cs), (emitted (for_result l (after_cycles (S k) l s w))).
    split.
    + rewrite Hevs, <- app_assoc. reflexivity.
    + eapply fetch_events_results, for_result_events.
  - intros Hst r Hin. rewrite Hw.
    eapply stable_rtc; [exact Hst|apply (for_done_false_stable _ _ Hst Hlast r Hin)|].
    etrans; [|apply for_result_reach].
    rewrite after_cycles_S, cycle_eq. cbn. apply rtc_once, next_sleep.
Qed.

(** C2, as amended: a call that ends has first polled without any [result]
    call, then made a pass in which every future answered true, then slept,
    and only then asked the futures for their results, in list order. Either
    every one gave a value and the call returns, or it is the first future to
    raise that ends the call: its exception is the one the call raises, it
    is the last event, the futures after it are not asked, and it is the only
    raise among the events. *)
Theorem wait_for_all_raises_first_failure fuel l s w :
  value (wait_for_all fuel l s w) <> OutOfFuel ->
  exists polling results,
    emitted (wait_for_all fuel l s w) =
      polling ++ all_done l ++ CallSleep s :: results /\
    Forall (fun ev => is_call_result ev = false) polling /\
    ((value (wait_for_all fuel l s w) = Returned tt /\
      length (filter (fun ev => is_raise ev = true)
                (emitted (wait_for_all fuel l s w))) = 0%nat /\
      exists vs, length vs = length l /\ results = zip_with returned l vs) \/
     (exists fetched vs r e unfetched,
        l = fetched ++ r :: unfetched /\
        length vs = length fetched /\
        value (wait_for_all fuel l s w) = Raised e /\
        length (filter (fun ev => is_raise ev = true)
                  (emitted (wait_for_all fuel l s w))) = 1%nat /\
        results = zip_with returned fetched vs ++ [CallResult r (inl e)])).
Proof.
  intros Hends.
  destruct (wait_for_all_run fuel l s w)
    as [(Hb & _)|(k & _ & _ & _ & Hb & _ & cs & _ & Hcs & Hevs)];
    [contradiction|].
  cbn zeta in Hb, Hevs.
  destruct (for_result_events l (after_cycles (S k) l s w)) as (_ & Hf).
  set (fetch := for_result l (after_cycles (S k) l s w)) in *.
  pose proof (cycles_no_result l s cs Hcs) as Hpoll.
  assert (Hnone : forall evs : list (event H V E),
             Forall (fun ev => is_call_result ev = false) evs ->
             filter (fun ev => is_raise ev = true) evs = []).
  { induction 1 as [|ev evs Hev _ IH]; [reflexivity|].
    rewrite filter_cons, IH. destruct ev as [| |r0 [e0|v0]]; try reflexivity.
    discriminate Hev. }
  assert (Hvals : forall l' (vs : list V),
             filter (fun ev => is_raise ev = true)
               (zip_with (@returned H V E) l' vs) = []).
  { induction l' as [|r0 l' IH]; intros [|v vs]; try reflexivity.
    cbn [zip_with]. rewrite filter_cons. cbn. apply IH. }
  assert (Hfront :
    filter (fun ev => is_raise ev = true) (concat cs ++ all_done l ++ [CallSleep s])
    = []).
  { apply Hnone. apply Forall_app. split; [exact Hpoll|].
    apply Forall_app. split; [|repeat constructor].
    apply Forall_fmap, Forall_true. reflexivity. }
  exists (concat cs), (emitted fetch). split; [|split; [exact Hpoll|]].
  { rewrite Hevs, <- app_assoc. reflexivity. }
  rewrite Hevs, Hb, !app_assoc, filter_app, <- app_assoc, Hfront. cbn [app].
  inversion Hf as [vs Hlen Hout Hres|fetched vs r e unfetched Hl Hlen Hout Hres].
  - left. split; [reflexivity|]. rewrite Hvals. split; [reflexivity|].
    exists vs. split; [exact Hlen|reflexivity].
  - right. exists fetched, vs, r, e, unfetched.
    repeat split; [exact Hl|exact Hlen|].
    rewrite filter_app, Hvals. reflexivity.
Qed.

(** C5, as amended: the events of a call are those of its polling cycles,
    then those of the last loop. In each cycle the futures are asked in list
    order from the first one on, up to and with the first one that answers
    false (all of them when none does), and then the call sleeps the whole
    [sleep_interval], wherever the pass stopped. *)
Theorem wait_for_all_cycles fuel l s w :
  exists cycles results,
    emitted (wait_for_all fuel l s w) = concat cycles ++ results /\
    Forall (fun ev => is_call_result ev = true) results /\
    Forall (fun c =>
              c = all_done l ++ [CallSleep s] \/
              exists checked r unchecked,
                l = checked ++ r :: unchecked /\
                c = all_done checked ++ [CallDone r false; CallSleep s])
           cycles.
Proof.
  assert (Hpolling : forall cs : list (list (event H V E)),
    Forall (cycle_events l s true) cs ->
    Forall (fun c =>
              c = all_done l ++ [CallSleep s] \/
              exists checked r unchecked,
                l = checked ++ r :: unchecked /\
                c = all_done checked ++ [CallDone r false; CallSleep s]) cs).
  { intros cs Hcs. eapply Forall_impl; [exact Hcs|].
    intros c (pass & Hp & ->).
    inversion Hp as [|checked r unchecked Hl]; subst.
    right. exists checked, r, unchecked. split; [reflexivity|].
    rewrite <- app_assoc. reflexivity. }
  destruct (wait_for_all_run fuel l s w)
    as [(_ & _ & _ & cs & _ & Hcs & Hevs)
       |(k & _ & _ & _ & _ & _ & cs & _ & Hcs & Hevs)].
  - exists cs, []. rewrite Hevs, app_nil_r. split; [reflexivity|].
    split; [constructor|]. apply Hpolling, Hcs.
  - cbn zeta in Hevs.
    exists (cs ++ [all_done l ++ [CallSleep s]]),
           (emitted (for_result l (after_cycles (S k) l s w))).
    split; [|split].
    + rewrite Hevs, concat_app. cbn. rewrite app_nil_r, <- !app_assoc. reflexivity.
    + eapply fetch_events_results, for_result_events.
    + apply Forall_app. split; [apply Hpolling, Hcs|].
      constructor; [|constructor]. left. reflexivity.
Qed.

(** C9: every run of the while body ends on [time.sleep(sleep_interval)],
    made in the world the pass has left. So a call that ends has slept the
    [sleep_interval] at least once: the sleep comes right after the first
    pass in which every future answers true, the cycles before it all ended
    on [not_done = True], nothing but [result] calls follow it, and the world
    the call ends in is the one these [result] calls reach from the world
    that sleep has made. On an empty list the call makes one sleep and
    nothing else; when every future answers true in the pass made at the
    call, it sleeps once all the same, right after that pass. *)
Theorem wait_for_all_sleeps_before_it_ends fuel l s w :
  (forall w',
     after (cycle l s w') = sleep s (after (for_done l w')) /\
     exists pass, emitted (cycle l s w') = pass ++ [CallSleep s]) /\
  (value (wait_for_all fuel l s w) <> OutOfFuel ->
   exists cycles results w1,
     emitted (wait_for_all fuel l s w) =
       concat cycles ++ all_done l ++ CallSleep s :: results /\
     Forall (cycle_events l s true) cycles /\
     Forall (fun ev => is_call_result ev = true) results /\
     w1 = after (for_done l (after_cycles (length cycles) l s w)) /\
     rtc next w w1 /\
     after (wait_for_all fuel l s w) = after (for_result l (sleep s w1))) /\
  wait_for_all (S fuel) [] s w = Reply (Returned tt) (sleep s w) [CallSleep s] /\
  (value (for_done l w) = Returned false ->
   value (wait_for_all (S fuel) l s w) <> OutOfFuel /\
   after (wait_for_all (S fuel) l s w) =
     after (for_result l (sleep s (after (for_done l w)))) /\
   exists results,
     emitted (wait_for_all (S fuel) l s w) =
       all_done l ++ CallSleep s :: results /\
     Forall (fun ev => is_call_result ev = true) results).
Proof.
  split; [|split; [|split]].
  - intros w'. rewrite cycle_eq. cbn. split; [reflexivity|]. eauto.
  - intros Hends.
    destruct (wait_for_all_run fuel l s w)
      as [(Hb & _)|(k & _ & _ & _ & _ & Hw & cs & Hlen & Hcs & Hevs)];
      [contradiction|].
    cbn zeta in Hw, Hevs.
    exists cs, (emitted (for_result l (after_cycles (S k) l s w))),
           (after (for_done l (after_cycles k l s w))).
    split; [|split; [|split; [|split; [|split]]]].
    + rewrite Hevs, <- !app_assoc. reflexivity.
    + exact Hcs.
    + eapply fetch_events_results, for_result_events.
    + rewrite Hlen. reflexivity.
    + etrans; [apply (after_cycles_reach 0 k); lia|apply for_done_reach].
    + rewrite Hw, after_cycles_S, cycle_eq. reflexivity.
  - rewrite wait_for_all_eq, while_not_done_S. cbn.
    rewrite while_not_done_false. reflexivity.
  - intros Hdone.
    destruct (wait_for_all_run (S fuel) l s w)
      as [(_ & _ & Hj & _)|(k & _ & _ & Hj & Hb & Hw & cs & Hlen & _ & Hevs)].
    + specialize (Hj 0%nat ltac:(lia)). cbn in Hj. congruence.
    + destruct k as [|k].
      2:{ specialize (Hj 0%nat ltac:(lia)). cbn in Hj. congruence. }
      destruct cs; [|discriminate Hlen]. cbn zeta in Hb, Hw, Hevs.
      destruct (for_result_events l (after_cycles 1 l s w)) as (Hfuel & Hf).
      split; [rewrite Hb; exact Hfuel|]. split.
      * rewrite Hw, after_cycles_S, cycle_eq. reflexivity.
      * exists (emitted (for_result l (after_cycles 1 l s w))). split.
        -- rewrite Hevs. cbn [concat app]. rewrite <- app_assoc. reflexivity.
        -- eapply fetch_events_results, Hf.
Qed.

(** C6: among futures that stay done once they are done, a call ends, given
    fuel enough, exactly when every future of the list is done at the head of
    some cycle; and with a future in the list that never answers true, the
    call is still polling whatever the fuel. *)
Theorem wait_for_all_ends_iff_all_done l s w :
  (stable ->
   (exists fuel, value (wait_for_all fuel l s w) <> OutOfFuel) <->
   (forall r, r ∈ l -> exists k, (done r (after_cycles k l s w)).1 = true)) /\
  (forall r, r ∈ l -> (forall w', (done r w').1 = false) ->
   forall fuel, value (wait_for_all fuel l s w) = OutOfFuel).
Proof.
  split.
  - intros Hst. split.
    + intros [fuel Hends] r Hin.
      destruct (wait_for_all_run fuel l s w)
        as [(Hb & _)|(k & _ & Hlast & _)]; [contradiction|].
      exists (S k). rewrite after_cycles_S, cycle_eq. cbn.
      eapply Hst; [|apply next_sleep].
      apply (for_done_false_stable _ _ Hst Hlast r Hin).
    + intros Hev.
      destruct (eventually_all_done l s w Hst Hev) as [k Hk].
      pose proof (for_done_all_done_stable _ _ Hst Hk) as Hlast.
      exists (S k).
      destruct (wait_for_all_run (S k) l s w)
        as [(_ & _ & Hj & _)|(k' & _ & _ & _ & Hb & _)].
      * specialize (Hj k ltac:(lia)). congruence.
      * cbn zeta in Hb. rewrite Hb. apply for_result_events.
  - intros r Hin Hnever fuel.
    destruct (wait_for_all_run fuel l s w)
      as [(Hb & _)|(k & _ & Hlast & _)]; [exact Hb|].
    rewrite (for_done_never _ _ r Hin Hnever) in Hlast. discriminate Hlast.
Qed.


(** The world in which a call ends is reached from the world of the call
    through a sleep of the [sleep_interval]. *)
Lemma wait_for_all_through_sleep fuel l s w :
  value (wait_for_all fuel l s w) <> OutOfFuel ->
  exists w1,
    rtc next w w1 /\ rtc next (sleep s w1) (after (wait_for_all fuel l s w)).
Proof.
  intros Hends.
  destruct (wait_for_all_run fuel l s w)
    as [(Hb & _)|(k & _ & _ & _ & _ & Hw & _)]; [contradiction|].
  cbn zeta in Hw. exists (after (for_done l (after_cycles k l s w))). split.
  - etrans; [apply (after_cycles_reach 0 k); lia|apply for_done_reach].
  - rewrite Hw, after_cycles_S, cycle_eq. cbn. apply for_result_reach.
Qed.


(** *** Further facts on wait_for_all *)

(** X11: a future that never answers true keeps every other future's result
    from being asked for: whatever the fuel, the call is still polling and
    has made no [result] call, so no stored exception has come out. *)
Theorem wait_for_all_never_fetches l s w r :
  r ∈ l -> (forall w', (done r w').1 = false) ->
  forall fuel,
    value (wait_for_all fuel l s w) = OutOfFuel /\
    Forall (fun ev => is_call_result ev = false)
           (emitted (wait_for_all fuel l s w)).
Proof.
  intros Hin Hnever fuel.
  destruct (wait_for_all_run fuel l s w)
    as [(Hb & _ & _ & cs & _ & Hcs & Hevs)|(k & _ & Hlast & _)].
  - split; [exact Hb|]. rewrite Hevs. eapply cycles_no_result, Hcs.
  - rewrite (for_done_never _ _ r Hin Hnever) in Hlast. discriminate Hlast.
Qed.

(** X12: among futures that stay done, once all of them are done at the head
    of cycle [k] the call needs no more than [k + 1] runs of the while body
    to end. *)
Theorem wait_for_all_ends_within k l s w :
  stable ->
  (forall r, r ∈ l -> (done r (after_cycles k l s w)).1 = true) ->
  value (wait_for_all (S k) l s w) <> OutOfFuel.
Proof.
  intros Hst Hall.
  pose proof (for_done_all_done_stable _ _ Hst Hall) as Hlast.
  destruct (wait_for_all_run (S k) l s w)
    as [(_ & _ & Hj & _)|(k' & _ & _ & _ & Hb & _)].
  - specialize (Hj k ltac:(lia)). congruence.
  - cbn zeta in Hb. rewrite Hb. apply for_result_events.
Qed.

(** *** Counting the calls of a run *)















End WaitFacts.

(** ** Runs in the clock world *)

Lemma clock_is_done_later (r : Clock.future) (now later : N) :
  (now <= later)%N -> Clock.is_done r now = true -> Clock.is_done r later = true.
Proof.
  unfold Clock.is_done. destruct (Clock.finish r) as [t|]; [|discriminate].
  rewrite !N.leb_le. lia.
Qed.

(** A future of the clock world that is done stays done. *)
Lemma clock_stable : Workflow.stable (TW := Clock.world).
Proof.
  intros r now later Hd Hn. cbn in *.
  apply (clock_is_done_later r now later); [|exact Hd].
  inversion Hn as [r' w'|r' w'|s w']; subst; cbn.
  - lia.
  - unfold Clock.wait_until_done. destruct (Clock.finish r'); lia.
  - lia.
Qed.

Lemma clock_never_goes_back (now later : N) :
  rtc (Workflow.next (TW := Clock.world)) now later -> (now <= later)%N.
Proof.
  induction 1 as [|now mid later Hn _ IH]; [lia|].
  etrans; [|exact IH].
  inversion Hn as [r' w'|r' w'|s w']; subst; cbn.
  - lia.
  - unfold Clock.wait_until_done. destruct (Clock.finish r'); lia.
  - lia.
Qed.

(** In the clock world a call that ends has lasted a [sleep_interval] at
    least. *)
Lemma clock_wait_for_all_lasts_an_interval fuel (l : list Clock.future) (s now : N) :
  value (Workflow.wait_for_all fuel l s now) <> OutOfFuel ->
  (now + s <= after (Workflow.wait_for_all fuel l s now))%N.
Proof.
  intros Hends.
  destruct (wait_for_all_through_sleep fuel l s now Hends) as (w1 & Hbefore & Hafter).
  apply clock_never_goes_back in Hbefore, Hafter. cbn in Hafter. lia.
Qed.

Example wait_for_all_two_cycles :
  Workflow.wait_for_all 5 [Clock.ok 0 1; Clock.ok 7 2] 10%N 0%N =
  Reply (Returned tt) 20%N
    [Workflow.CallDone (Clock.ok 0 1) true; Workflow.CallDone (Clock.ok 7 2) false;
     Workflow.CallSleep 10;
     Workflow.CallDone (Clock.ok 0 1) true; Workflow.CallDone (Clock.ok 7 2) true;
     Workflow.CallSleep 10;
     Workflow.CallResult (Clock.ok 0 1) (inr 1%Z);
     Workflow.CallResult (Clock.ok 7 2) (inr 2%Z)].
Proof. reflexivity. Qed.

Example wait_for_all_raises :
  Workflow.wait_for_all 5 [Clock.failing 0 "E1"; Clock.failing 0 "E2"] 10%N 0%N =
  Reply (Raised "E1") 10%N
    [Workflow.CallDone (Clock.failing 0 "E1") true;
     Workflow.CallDone (Clock.failing 0 "E2") true;
     Workflow.CallSleep 10;
     Workflow.CallResult (Clock.failing 0 "E1") (inl "E1")].
Proof. reflexivity. Qed.

Example wait_for_all_out_of_fuel :
  Workflow.wait_for_all 2 [Clock.stuck] 10%N 0%N =
  Reply OutOfFuel 20%N
    [Workflow.CallDone Clock.stuck false; Workflow.CallSleep 10;
     Workflow.CallDone Clock.stuck false; Workflow.CallSleep 10].
Proof. reflexivity. Qed.

Example workflow_config_without_env_file :
  value (Workflow.workflow_config Example.address_by_interface "biocomp"
           Workflow.default_partition Workflow.default_nodes
           Workflow.default_cores_per_node Workflow.default_walltime
           Workflow.default_interval Workflow.default_monitor ∅)
  = Raised (Workflow.FileNotFoundError "parsl.env").
Proof. reflexivity. Qed.

Example workflow_config_short_list :
  value (Workflow.workflow_config Example.address_by_interface "biocomp"
           ["sequana_cpu"; "sequana_cpu"; "sequana_cpu"] Workflow.default_nodes
           Workflow.default_cores_per_node Workflow.default_walltime
           Workflow.default_interval Workflow.default_monitor Example.fs)
  = Raised Workflow.IndexError.
Proof. reflexivity. Qed.

Example workflow_config_logging :
  emitted (Workflow.workflow_config Example.address_by_interface "biocomp"
             Workflow.default_partition Workflow.default_nodes
             Workflow.default_cores_per_node Workflow.default_walltime
             Workflow.default_interval Workflow.default_monitor Example.fs)
  = [Workflow.set_stream_logger parsl.ERROR;
     Workflow.set_file_logger "biocomp_script.output" parsl.DEBUG;
     Workflow.logging_info "Configuring Parsl Workflow Infrastructure";
     Workflow.logging_info
       "Task Environment module load parsl; export OMP_NUM_THREADS=1"].
Proof. reflexivity. Qed.

Example PhylipMissingData_str_example :
  PhylipMissingData.__str__ (PhylipMissingData.__init__ "/data/in" None) =
  "/data/in -> Unable to find a tar file with the nexus data.".
Proof. reflexivity. Qed.

(** ** The claims on inputs *)


Lemma workflow_config_monitoring_witness :
  exists cfg,
    value (Workflow.workflow_config Example.address_by_interface "biocomp"
             Workflow.default_partition Workflow.default_nodes
             Workflow.default_cores_per_node Workflow.default_walltime
             30%Z true Example.fs) = Returned cfg /\
    (is_Some (parsl.monitoring cfg) <-> true = true) /\
    (forall hub, parsl.monitoring cfg = Some hub ->
       parsl.resource_monitoring_interval hub = 30%Z).
Proof.
  eexists. split; [reflexivity|].
  apply (workflow_config_monitoring Example.address_by_interface "biocomp"
           Workflow.default_partition Workflow.default_nodes
           Workflow.default_cores_per_node Workflow.default_walltime
           30%Z true Example.fs).
  reflexivity.
Defined.


Lemma wait_for_all_ends_after_all_done_witness :
  let l := [Clock.ok 0 1; Clock.ok 25 2] in
  let run := Workflow.wait_for_all 5 l 10%N 0%N in
  value run <> OutOfFuel /\
  (exists before results,
     emitted run = (before ++ Workflow.all_done l ++ Workflow.CallSleep 10 :: results)%list /\
     Forall (fun ev => Workflow.is_call_result ev = true) results) /\
  (forall r, r ∈ l -> (Workflow.done r (after run)).1 = true).
Proof.
  intros l run.
  assert (Hends : value run <> OutOfFuel) by (vm_compute; discriminate).
  split; [exact Hends|].
  destruct (wait_for_all_ends_after_all_done 5 l 10%N 0%N Hends)
    as [Hevents Hdone].
  split; [exact Hevents|exact (Hdone clock_stable)].
Defined.

Lemma wait_for_all_raises_first_failure_witness :
  let l := [Clock.ok 12 1; Clock.failing 0 "E2"; Clock.failing 3 "E3"] in
  let run := Workflow.wait_for_all 5 l 10%N 0%N in
  value run <> OutOfFuel /\
  exists polling results,
    emitted run =
      (polling ++ Workflow.all_done l ++ Workflow.CallSleep 10 :: results)%list /\
    Forall (fun ev => Workflow.is_call_result ev = false) polling /\
    ((value run = Returned tt /\
      length (filter (fun ev => Workflow.is_raise ev = true) (emitted run)) = 0%nat /\
      exists vs, length vs = length l /\
                 results = zip_with Workflow.returned l vs) \/
     (exists fetched vs r e unfetched,
        l = (fetched ++ r :: unfetched)%list /\
        length vs = length fetched /\
        value run = Raised e /\
        length (filter (fun ev => Workflow.is_raise ev = true) (emitted run)) = 1%nat /\
        results =
          (zip_with Workflow.returned fetched vs ++ [Workflow.CallResult r (inl e)])%list)).
Proof.
  intros l run.
  assert (Hends : value run <> OutOfFuel) by (vm_compute; discriminate).
  split; [exact Hends|].
  exact (wait_for_all_raises_first_failure 5 l 10%N 0%N Hends).
Defined.

(** C2, as the claim has it, fails: of two futures that both store an
    exception, only the first one's is ever raised by the call. *)
Lemma wait_for_all_second_failure_is_not_raised :
  let l := [Clock.failing 0 "E1"; Clock.failing 0 "E2"] in
  ~ (forall r e, r ∈ l -> Clock.stored r = inl e ->
       exists fuel, value (Workflow.wait_for_all fuel l 10%N 0%N) = Raised e).
Proof.
  intros l Hclaim.
  destruct (Hclaim (Clock.failing 0 "E2") "E2") as [fuel Hraised].
  - apply list_elem_of_further, list_elem_of_here.
  - reflexivity.
  - destruct fuel as [|fuel]; [discriminate Hraised|].
    rewrite wait_for_all_eq, while_not_done_S in Hraised. cbn in Hraised.
    rewrite while_not_done_false in Hraised. discriminate Hraised.
Qed.

(** C5, as the claim has it, fails: a cycle that finds the first future not
    done goes to sleep without asking the second one. *)
Lemma cycle_does_not_ask_every_future :
  let l := [Clock.ok 5 1; Clock.ok 0 2] in
  ~ (forall r, r ∈ l ->
       exists answer,
         Workflow.CallDone r answer ∈ emitted (Workflow.cycle l 10%N 0%N)).
Proof.
  intros l Hclaim.
  destruct (Hclaim (Clock.ok 0 2)) as [answer Hasked].
  - apply list_elem_of_further, list_elem_of_here.
  - cbn in Hasked.
    apply elem_of_cons in Hasked as [Heq|Hasked]; [discriminate Heq|].
    apply elem_of_cons in Hasked as [Heq|Hasked]; [discriminate Heq|].
    inversion Hasked.
Qed.

Lemma wait_for_all_sleeps_before_it_ends_witness :
  let l := [Clock.ok 0 1; Clock.ok 0 2] in
  (exists cycles results w1,
     emitted (Workflow.wait_for_all 1 l 10%N 0%N) =
       (concat cycles ++ Workflow.all_done l
          ++ Workflow.CallSleep 10 :: results)%list /\
     Forall (Workflow.cycle_events l 10%N true) cycles /\
     Forall (fun ev => Workflow.is_call_result ev = true) results /\
     w1 = after (Workflow.for_done l
                   (Workflow.after_cycles (length cycles) l 10%N 0%N)) /\
     rtc Workflow.next 0%N w1 /\
     after (Workflow.wait_for_all 1 l 10%N 0%N) =
       after (Workflow.for_result l (Workflow.sleep 10%N w1))) /\
  Workflow.wait_for_all 2 [] 10%N 0%N =
    Reply (Returned tt) 10%N [Workflow.CallSleep 10] /\
  (value (Workflow.wait_for_all 2 l 10%N 0%N) <> OutOfFuel /\
   after (Workflow.wait_for_all 2 l 10%N 0%N) = 10%N /\
   exists results,
     emitted (Workflow.wait_for_all 2 l 10%N 0%N) =
       (Workflow.all_done l ++ Workflow.CallSleep 10 :: results)%list /\
     Forall (fun ev => Workflow.is_call_result ev = true) results).
Proof.
  intros l.
  destruct (wait_for_all_sleeps_before_it_ends 1 l 10%N 0%N)
    as (_ & Hsleep & Hnil & Hall).
  split; [apply Hsleep; vm_compute; discriminate|].
  split; [exact Hnil|].
  apply Hall. reflexivity.
Defined.

Lemma wait_for_all_ends_iff_all_done_witness :
  let l := [Clock.ok 0 1; Clock.ok 25 2] in
  ((exists fuel, value (Workflow.wait_for_all fuel l 10%N 0%N) <> OutOfFuel) <->
   (forall r, r ∈ l ->
      exists k, (Workflow.done r (Workflow.after_cycles k l 10%N 0%N)).1 = true)) /\
  (forall fuel,
     value (Workflow.wait_for_all fuel [Clock.ok 0 1; Clock.stuck] 10%N 0%N)
     = OutOfFuel).
Proof.
  intros l. split.
  - exact (proj1 (wait_for_all_ends_iff_all_done l 10%N 0%N) clock_stable).
  - apply (proj2 (wait_for_all_ends_iff_all_done
                    [Clock.ok 0 1; Clock.stuck] 10%N 0%N) Clock.stuck).
    + apply list_elem_of_further, list_elem_of_here.
    + intros now. reflexivity.
Defined.

(** ** Further facts *)

(** *** The text of a PhylipMissingData *)

Lemma string_length_append (s t : string) :
  String.length (s +:+ t) = (String.length s + String.length t)%nat.
Proof.
  induction s as [|a s IH]; [reflexivity|].
  change (S (String.length (s +:+ t)) = S (String.length s + String.length t)).
  now rewrite IH.
Qed.

Lemma string_append_cancel_r (s s' t : string) :
  s +:+ t = s' +:+ t -> s = s'.
Proof.
  revert s'. induction s as [|a s IH]; intros [|a' s'] Heq.
  - reflexivity.
  - apply (f_equal String.length) in Heq.
    rewrite !string_length_append in Heq. cbn in Heq. lia.
  - apply (f_equal String.length) in Heq.
    rewrite !string_length_append in Heq. cbn in Heq. lia.
  - change (String a (s +:+ t) = String a' (s' +:+ t)) in Heq.
    injection Heq as -> Heq. f_equal. now apply IH.
Qed.

Lemma string_append_cancel_l (s t t' : string) :
  s +:+ t = s +:+ t' -> t = t'.
Proof. apply String.app_inj. Qed.

(** X14: the text tells two exceptions with the same message apart by their
    directories, and two exceptions with the same directory apart by their
    messages. *)
Theorem PhylipMissingData_str_tells_apart :
  (forall input_dir input_dir' message,
     PhylipMissingData.__str__ (PhylipMissingData.__init__ input_dir message) =
     PhylipMissingData.__str__ (PhylipMissingData.__init__ input_dir' message) ->
     input_dir = input_dir') /\
  (forall input_dir message message',
     PhylipMissingData.__str__ (PhylipMissingData.__init__ input_dir (Some message)) =
     PhylipMissingData.__str__ (PhylipMissingData.__init__ input_dir (Some message')) ->
     message = message').
Proof.
  split.
  - intros input_dir input_dir' message Heq.
    unfold PhylipMissingData.__str__ in Heq. cbn in Heq.
    eapply string_append_cancel_r, Heq.
  - intros input_dir message message' Heq.
    unfold PhylipMissingData.__str__ in Heq. cbn in Heq.
    apply string_append_cancel_l in Heq. apply (string_append_cancel_l " -> "), Heq.
Qed.

(** The text alone does not tell where the directory ends. *)
Example PhylipMissingData_str_ambiguous :
  PhylipMissingData.__str__ (PhylipMissingData.__init__ "a -> b" (Some "c")) =
  PhylipMissingData.__str__ (PhylipMissingData.__init__ "a" (Some "b -> c")).
Proof. reflexivity. Qed.

(** *** The time a call takes in the clock world *)

Lemma clock_for_done_after (l : list Clock.future) (now : N) :
  after (Workflow.for_done l now) = now.
Proof.
  induction l as [|r l IH]; [reflexivity|].
  rewrite for_done_cons. cbn. destruct (Clock.is_done r now); [|reflexivity].
  destruct (Workflow.for_done l now). exact IH.
Qed.

Lemma clock_after_cycles k (l : list Clock.future) (s now : N) :
  Workflow.after_cycles k l s now = (now + N.of_nat k * s)%N.
Proof.
  induction k as [|k IH]; [cbn; lia|].
  rewrite after_cycles_S, cycle_eq, IH. cbn. rewrite clock_for_done_after. lia.
Qed.

Lemma clock_for_result_after (l : list Clock.future) (now : N) :
  (forall r, r ∈ l -> Clock.is_done r now = true) ->
  after (Workflow.for_result l now) = now.
Proof.
  induction l as [|r l IH]; intros Hall; [reflexivity|].
  rewrite for_result_cons. cbn.
  assert (Hnow : Clock.wait_until_done r now = now).
  { pose proof (Hall r (list_elem_of_here _ _)) as Hr.
    unfold Clock.is_done, Clock.wait_until_done in *.
    destruct (Clock.finish r); [|discriminate Hr].
    apply N.leb_le in Hr. lia. }
  rewrite Hnow. destruct (Clock.stored r); [reflexivity|].
  specialize (IH (fun r' Hin => Hall r' (list_elem_of_further _ _ _ Hin))).
  destruct (Workflow.for_result l now). exact IH.
Qed.

(** X15: in the clock world, when the pass made [k] sleeps after the call is
    the first to find every future done, the call ends [k + 1] sleeps after
    it was made: one whole [sleep_interval] after that pass. *)
Theorem clock_wait_for_all_end_time k (l : list Clock.future) (s now : N) :
  (forall r, r ∈ l -> Clock.is_done r (now + N.of_nat k * s) = true) ->
  (forall j, (j < k)%nat ->
     exists r, r ∈ l /\ Clock.is_done r (now + N.of_nat j * s) = false) ->
  value (Workflow.wait_for_all (S k) l s now) <> OutOfFuel /\
  after (Workflow.wait_for_all (S k) l s now) = (now + N.of_nat (S k) * s)%N.
Proof.
  intros Hall Hearlier.
  destruct (wait_for_all_run (S k) l s now)
    as [(_ & _ & Hj & _)|(k' & Hk' & Hlast & _ & Hb & Hw & _)].
  - specialize (Hj k ltac:(lia)).
    rewrite (for_done_all_done_stable l _ clock_stable) in Hj; [discriminate Hj|].
    intros r Hin. rewrite clock_after_cycles. cbn. apply Hall, Hin.
  - cbn zeta in Hb, Hw.
    assert (Hdone : forall r, r ∈ l ->
              Clock.is_done r (now + N.of_nat k' * s) = true).
    { intros r Hin.
      pose proof (for_done_false_stable l _ clock_stable Hlast r Hin) as Hr.
      rewrite clock_for_done_after, clock_after_cycles in Hr. exact Hr. }
    assert (k' = k) as ->.
    { destruct (decide (k' = k)) as [Heq|Hne]; [exact Heq|].
      destruct (Hearlier k' ltac:(lia)) as (r & Hin & Hr).
      rewrite (Hdone r Hin) in Hr. discriminate Hr. }
    split.
    + rewrite Hb. apply for_result_events.
    + rewrite Hw, clock_for_result_after; [apply clock_after_cycles|].
      intros r Hin. rewrite clock_after_cycles.
      apply (clock_is_done_later r (now + N.of_nat k * s)); [lia|].
      apply Hdone, Hin.
Qed.

(** ** The further facts on inputs *)

Lemma workflow_config_returns_only_if_witness :
  is_Some (Example.fs !! "parsl.env") /\
  (4 <= length Workflow.default_partition)%nat /\
  (4 <= length Workflow.default_nodes)%nat /\
  (4 <= length Workflow.default_cores_per_node)%nat /\
  (4 <= length Workflow.default_walltime)%nat.
Proof.
  eapply (workflow_config_returns_only_if Example.address_by_interface "biocomp"
            Workflow.default_partition Workflow.default_nodes
            Workflow.default_cores_per_node Workflow.default_walltime
            Workflow.default_interval Workflow.default_monitor Example.fs).
  reflexivity.
Defined.

Lemma workflow_config_logging_calls_witness :
  exists env_str,
    Example.fs !! "parsl.env" = Some env_str /\
    emitted (Workflow.workflow_config Example.address_by_interface "biocomp"
               Workflow.default_partition Workflow.default_nodes
               Workflow.default_cores_per_node Workflow.default_walltime
               Workflow.default_interval Workflow.default_monitor Example.fs) =
    [Workflow.set_stream_logger parsl.ERROR;
     Workflow.set_file_logger ("biocomp" +:+ "_script.output") parsl.DEBUG;
     Workflow.logging_info "Configuring Parsl Workflow Infrastructure";
     Workflow.logging_info ("Task Environment " +:+ env_str)].
Proof.
  eapply (workflow_config_logging_calls Example.address_by_interface "biocomp"
            Workflow.default_partition Workflow.default_nodes
            Workflow.default_cores_per_node Workflow.default_walltime
            Workflow.default_interval Workflow.default_monitor Example.fs).
  reflexivity.
Defined.

Lemma workflow_config_launcher_cores_witness :
  exists cfg,
    value (Workflow.workflow_config Example.address_by_interface "biocomp"
             Workflow.default_partition Workflow.default_nodes
             [48; 24; 12; 6]%Z Workflow.default_walltime
             Workflow.default_interval Workflow.default_monitor Example.fs)
      = Returned cfg /\
    forall ex, ex ∈ parsl.executors cfg ->
      parsl.overrides (parsl.launcher (parsl.provider ex)) =
      "-c " +:+ Workflow.str (parsl.max_workers ex).
Proof.
  eexists. split; [reflexivity|].
  apply (workflow_config_launcher_cores Example.address_by_interface "biocomp"
           Workflow.default_partition Workflow.default_nodes
           [48; 24; 12; 6]%Z Workflow.default_walltime
           Workflow.default_interval Workflow.default_monitor Example.fs).
  reflexivity.
Defined.

Lemma workflow_config_labels_witness :
  exists cfg,
    value (Workflow.workflow_config Example.address_by_interface "biocomp"
             Workflow.default_partition Workflow.default_nodes
             Workflow.default_cores_per_node Workflow.default_walltime
             Workflow.default_interval Workflow.default_monitor Example.fs)
      = Returned cfg /\
    map parsl.label (parsl.executors cfg) =
      ["single_thread"; "raxml"; "snaq"; "snaq_l"] /\
    NoDup (map parsl.label (parsl.executors cfg)).
Proof.
  eexists. split; [reflexivity|].
  apply (workflow_config_labels Example.address_by_interface "biocomp"
           Workflow.default_partition Workflow.default_nodes
           Workflow.default_cores_per_node Workflow.default_walltime
           Workflow.default_interval Workflow.default_monitor Example.fs).
  reflexivity.
Defined.

Lemma workflow_config_one_block_witness :
  exists cfg,
    value (Workflow.workflow_config Example.address_by_interface "biocomp"
             Workflow.default_partition Workflow.default_nodes
             Workflow.default_cores_per_node Workflow.default_walltime
             Workflow.default_interval Workflow.default_monitor Example.fs)
      = Returned cfg /\
    parsl.strategy cfg = None /\
    forall ex, ex ∈ parsl.executors cfg ->
      parsl.init_blocks (parsl.provider ex) = 1%Z /\
      parsl.max_blocks (parsl.provider ex) = 1%Z /\
      parsl.parallelism (parsl.provider ex) = 1%Z.
Proof.
  eexists. split; [reflexivity|].
  apply (workflow_config_one_block Example.address_by_interface "biocomp"
           Workflow.default_partition Workflow.default_nodes
           Workflow.default_cores_per_node Workflow.default_walltime
           Workflow.default_interval Workflow.default_monitor Example.fs).
  reflexivity.
Defined.

Lemma workflow_config_executors_independent_witness :
  exists cfg cfg',
    value (Workflow.workflow_config Example.address_by_interface "biocomp"
             Workflow.default_partition Workflow.default_nodes
             Workflow.default_cores_per_node Workflow.default_walltime
             Workflow.default_interval Workflow.default_monitor Example.fs)
      = Returned cfg /\
    value (Workflow.workflow_config Example.address_by_interface "other"
             Workflow.default_partition Workflow.default_nodes
             Workflow.default_cores_per_node Workflow.default_walltime
             5%Z true Example.fs)
      = Returned cfg' /\
    parsl.executors cfg' = parsl.executors cfg.
Proof.
  eexists. eexists. split; [reflexivity|]. split; [reflexivity|].
  apply (workflow_config_executors_independent
           Example.address_by_interface "biocomp" "other"
           Workflow.default_partition Workflow.default_nodes
           Workflow.default_cores_per_node Workflow.default_walltime
           Workflow.default_interval 5%Z Workflow.default_monitor true
           Example.fs);
    reflexivity.
Defined.

Lemma workflow_config_hub_witness :
  exists cfg hub,
    value (Workflow.workflow_config Example.address_by_interface "biocomp"
             Workflow.default_partition Workflow.default_nodes
             Workflow.default_cores_per_node Workflow.default_walltime
             Workflow.default_interval true Example.fs)
      = Returned cfg /\
    parsl.monitoring cfg = Some hub /\
    parsl.workflow_name hub = "biocomp" /\
    parsl.hub_address hub = Example.address_by_interface "ib0" /\
    parsl.hub_port hub = 60001%Z /\
    forall ex, ex ∈ parsl.executors cfg ->
      parsl.address ex = parsl.hub_address hub /\
      ((parsl.interchange_port_range ex).1 < (parsl.interchange_port_range ex).2
       < parsl.hub_port hub)%Z.
Proof.
  destruct (workflow_config_hub Example.address_by_interface "biocomp"
              Workflow.default_partition Workflow.default_nodes
              Workflow.default_cores_per_node Workflow.default_walltime
              Workflow.default_interval Example.fs _ ltac:(reflexivity))
    as (hub & Hhub).
  eexists. exists hub. split; [reflexivity|exact Hhub].
Defined.


Lemma wait_for_all_never_fetches_witness :
  value (Workflow.wait_for_all 7 [Clock.failing 0 "E1"; Clock.stuck] 10%N 0%N)
  = OutOfFuel /\
  Forall (fun ev => Workflow.is_call_result ev = false)
    (emitted (Workflow.wait_for_all 7 [Clock.failing 0 "E1"; Clock.stuck]
                10%N 0%N)).
Proof.
  apply (wait_for_all_never_fetches [Clock.failing 0 "E1"; Clock.stuck]
           10%N 0%N Clock.stuck).
  - apply list_elem_of_further, list_elem_of_here.
  - intros now. reflexivity.
Defined.

Lemma wait_for_all_ends_within_witness :
  value (Workflow.wait_for_all 4 [Clock.ok 0 1; Clock.ok 25 2] 10%N 0%N)
  <> OutOfFuel.
Proof.
  apply (wait_for_all_ends_within 3 [Clock.ok 0 1; Clock.ok 25 2] 10%N 0%N).
  - exact clock_stable.
  - intros r Hin.
    apply elem_of_cons in Hin as [->|Hin]; [reflexivity|].
    apply elem_of_cons in Hin as [->|Hin]; [reflexivity|].
    inversion Hin.
Defined.

Lemma PhylipMissingData_str_tells_apart_witness :
  "/data/in" = "/data/in" /\ "no tar file" = "no tar file".
Proof.
  split.
  - apply (proj1 PhylipMissingData_str_tells_apart "/data/in" "/data/in" None).
    reflexivity.
  - apply (proj2 PhylipMissingData_str_tells_apart "/data/in"
             "no tar file" "no tar file").
    reflexivity.
Defined.

Lemma clock_wait_for_all_end_time_witness :
  value (Workflow.wait_for_all 4 [Clock.ok 0 1; Clock.ok 25 2] 10%N 0%N)
  <> OutOfFuel /\
  after (Workflow.wait_for_all 4 [Clock.ok 0 1; Clock.ok 25 2] 10%N 0%N)
  = (0 + N.of_nat 4 * 10)%N.
Proof.
  apply (clock_wait_for_all_end_time 3 [Clock.ok 0 1; Clock.ok 25 2] 10%N 0%N).
  - intros r Hin.
    apply elem_of_cons in Hin as [->|Hin]; [reflexivity|].
    apply elem_of_cons in Hin as [->|Hin]; [reflexivity|].
    inversion Hin.
  - intros j Hj. exists (Clock.ok 25 2). split.
    + apply list_elem_of_further, list_elem_of_here.
    + destruct j as [|[|[|j]]]; [reflexivity|reflexivity|reflexivity|lia].
Defined.
